(** * The basic-block store of angr's knowledge base

    A shallow embedding of [angr/knowledge_plugins/basic_blocks.py]:
    [BlockItem], the hooks [BlockMapping] overrides, and
    [BasicBlocksPlugin.add_block] with its three overlap modes.

    Addresses and sizes are Python integers, hence [Z].  A record is a Python
    object that is mutated in place; the store is the ordered list of the
    records it holds, and a reference to a record is either an index into that
    list or a record the store does not hold (yet). *)

From Stdlib Require Import ZArith List String Bool Lia Sorted.
Import ListNotations.
Local Open Scope Z_scope.

Set Implicit Arguments.

(* ------------------------------------------------------------------ *)
(** ** Records *)

Section Records.
Context {T : Type}.

(** [class BlockItem(RangeItem)]: a range [start, end), the value attached
    to it, and the [second_chance] flag that [BlockItem.__init__] adds. *)
Record BlockItem : Type := mkBlockItem
    { start : Z;
      end_ : Z;
      value : T;
      second_chance : bool }.

(** [BlockItem.addr]: a property that returns [self.start]. *)
Definition BlockItem_addr (b : BlockItem) : Z := start b.

(** Attribute assignments [b.start = x], [b.end = x], [b.second_chance = x]. *)
Definition set_start (b : BlockItem) (x : Z) : BlockItem :=
    mkBlockItem x (end_ b) (value b) (second_chance b).
Definition set_end (b : BlockItem) (x : Z) : BlockItem :=
    mkBlockItem (start b) x (value b) (second_chance b).
Definition set_second_chance (b : BlockItem) (x : bool) : BlockItem :=
    mkBlockItem (start b) (end_ b) (value b) x.

(** A reference to a record, as an [OverlappedBlocks] exception carries it,
    together with the record's contents at the time of the raise: the record
    sits in the store at an index, or it was built for an insertion and is
    held by nothing but the exception. *)
Inductive ref : Type :=
  | Fresh (b : BlockItem)
  | Stored (i : nat) (b : BlockItem).

Definition deref (r : ref) : BlockItem :=
    match r with
    | Fresh b => b
    | Stored _ b => b
    end.

(** What [add_block] can raise. [OverlappedBlocks] is the class of the
    source; the two [ValueError]s are told apart by their message; calling
    [overlap_handler] when it is [None] is Python's [TypeError]. *)
Inductive exn : Type :=
  | ValueError_empty (a sz : Z)
  | ValueError_unknown_mode (mode : string)
  | OverlappedBlocks (this_block other_block : ref)
  | TypeError_not_callable.

End Records.

Arguments BlockItem T : clear implicits.
Arguments ref T : clear implicits.
Arguments exn T : clear implicits.

(* ------------------------------------------------------------------ *)
(** ** The range dictionary *)

Module RangeDict.
Section RangeDict.
Context {T : Type}.

(** The store: the records in ascending order of [start]. *)
Definition t : Type := list (BlockItem T).

(** Modelled from the spec: the base class's [_trim_left] (the package
    [rangedict] is imported by basic_blocks.py and is not among the
    sources).  [this_item] is trimmed on its left: when [left_item] reaches
    into it, it is cut to start where [left_item] ends.  The two records
    are given back as the call leaves them. *)
Definition _trim_left (this_item left_item : BlockItem T)
    : BlockItem T * BlockItem T :=
    if start this_item <? end_ left_item
    then (set_start this_item (end_ left_item), left_item)
    else (this_item, left_item).

(** Modelled from the spec: the base class's [_trim_right], the mirror
    image: [this_item] is trimmed on its right, cut to end where
    [right_item] starts. *)
Definition _trim_right (this_item right_item : BlockItem T)
    : BlockItem T * BlockItem T :=
    if start right_item <? end_ this_item
    then (set_end this_item (start right_item), right_item)
    else (this_item, right_item).

(** A record whose range a trim has emptied leaves the sequence. *)
Definition survives (before after : BlockItem T) : list (BlockItem T) :=
    if (start after <? end_ after)
       || ((start after =? start before) && (end_ after =? end_ before))
    then [after] else [].

(** The records that start at or before [s], and the rest. *)
Fixpoint split_at (s : Z) (l : t) : t * t :=
    match l with
    | [] => ([], [])
    | b :: l' =>
        if start b <=? s
        then let (ls, rs) := split_at s l' in (b :: ls, rs)
        else ([], l)
    end.

(** Modelled from the spec: [peekitem] (package [rangedict], not among the
    sources): the record whose range holds [a], or [None]. *)
Fixpoint peekitem (l : t) (a : Z) : option (BlockItem T) :=
    match l with
    | [] => None
    | b :: l' =>
        if (start b <=? a) && (a <? end_ b) then Some b else peekitem l' a
    end.

(** Modelled from the spec: [key in self], true when some record's range
    holds [a]. *)
Definition contains (l : t) (a : Z) : bool :=
    match peekitem l a with
    | Some _ => true
    | None => false
    end.

(** Modelled from the spec: [islice(start, stop)]: the records that meet
    [start, stop), in the order of the sequence; a bound that is [None] does
    not bound. *)
Definition islice (l : t) (start_ stop : option Z) : list (BlockItem T) :=
    filter
      (fun b =>
         match start_ with None => true | Some s => s <? end_ b end
         && match stop with None => true | Some e => start b <? e end)
      l.

(** Writing through a reference: an attribute assignment on a stored
    record changes the store, one on a fresh record changes nothing the
    store can see. *)
Fixpoint update (l : t) (i : nat) (b : BlockItem T) : t :=
    match l, i with
    | [], _ => []
    | _ :: l', O => b :: l'
    | x :: l', S i' => x :: update l' i' b
    end.

Definition assign (l : t) (r : ref T) (b : BlockItem T) : t :=
    match r with
    | Fresh _ => l
    | Stored i _ => update l i b
    end.

(** What a trimming hook does: it raises [OverlappedBlocks(this, other)], or
    it returns, having possibly changed the two records it was given. *)
Inductive trimmed : Type :=
  | Overlap (this_item other_item : BlockItem T)
  | Trimmed (this_item neighbour : BlockItem T).

Section Placement.
(** The methods a subclass overrides. *)
Variable trim_left trim_right : BlockItem T -> BlockItem T -> trimmed.
Variable make_item : Z -> Z -> T -> BlockItem T.

(** Modelled from the spec: the right-hand part of the placement.  The
    stored records that start after the new one are shown the new record
    one after the other, each as the [this_item] of [_trim_left] with the
    new record as its [left_item]; the walk goes on past a record only
    when the trim has emptied it.  [idx] is the place of the record in the
    sequence. *)
Fixpoint place_right (new_item : BlockItem T) (idx : nat) (rs : t)
    : (ref T * ref T) + (BlockItem T * t) :=
    match rs with
    | [] => inr (new_item, [])
    | right_item :: post =>
        match trim_left right_item new_item with
        | Overlap a b => inl (Stored idx a, Fresh b)
        | Trimmed right' new' =>
            match survives right_item right' with
            | [] => place_right new' (S idx) post
            | kept => inr (new', kept ++ post)
            end
        end
    end.

(** Modelled from the spec: the placement step of [RangeDict.__setitem__]
    (not among the sources).  The stored neighbours give way to the new
    record: the last record that starts at or before the new one is the
    [this_item] of [_trim_right], with the new record as its [right_item],
    and the records after it go through [place_right].  A hook that raises
    aborts the insertion and leaves the sequence as it was; the exception
    names the stored record the hook was called on and the record that
    was being inserted.  Otherwise the new record is put between the
    neighbours as the hooks leave them.  [_should_merge] is [False] in
    [BlockMapping], so nothing is merged. *)
Definition place (l : t) (new_item : BlockItem T) : (ref T * ref T) + t :=
      let (ls, rs) := split_at (start new_item) l in
      let left_step :=
        match rev ls with
        | [] => inr (new_item, [])
        | left_item :: rpre =>
            match trim_right left_item new_item with
            | Overlap a b => inl (Stored (List.length rpre) a, Fresh b)
            | Trimmed left' new' =>
                inr (new', rev rpre ++ survives left_item left')
            end
        end in
      match left_step with
      | inl e => inl e
      | inr (new1, ls') =>
          match place_right new1 (List.length ls) rs with
          | inl e => inl e
          | inr (new2, rs') => inr (ls' ++ new2 :: rs')
          end
      end.

(** Modelled from the spec: [RangeDict.__setitem__] for a slice key
    [start:stop]: a record is made with [_make_item] and placed. *)
Definition __setitem__ (l : t) (start stop : Z) (v : T)
      : (ref T * ref T) + t :=
      place l (make_item start stop v).
End Placement.

End RangeDict.

Arguments t T : clear implicits.
Arguments trimmed T : clear implicits.
End RangeDict.

(* ------------------------------------------------------------------ *)
(** ** [class BlockMapping(RangeDict)] *)

Module BlockMapping.
Section BlockMapping.
Context {T : Type}.

(** [_trim_left]: an overlap with the left neighbour raises unless
    [this_item] has its second chance; otherwise the flag is cleared and the
    base class trims. *)
Definition _trim_left (this_item left_item : BlockItem T)
    : RangeDict.trimmed T :=
    if (start this_item <? end_ left_item) && negb (second_chance this_item)
    then RangeDict.Overlap this_item left_item
    else
      let this_item := set_second_chance this_item false in
      let (a, b) := RangeDict._trim_left this_item left_item in
      RangeDict.Trimmed a b.

(** [_trim_right], the same on the other side. *)
Definition _trim_right (this_item right_item : BlockItem T)
    : RangeDict.trimmed T :=
    if (end_ this_item >? start right_item) && negb (second_chance this_item)
    then RangeDict.Overlap this_item right_item
    else
      let this_item := set_second_chance this_item false in
      let (a, b) := RangeDict._trim_right this_item right_item in
      RangeDict.Trimmed a b.

(** [_should_merge] is constantly [False]. *)
Definition _should_merge (this_item other_item : BlockItem T) : bool := false.

(** [_make_item]: [BlockItem(start, end, value)], whose [__init__] sets
    [second_chance = False]. *)
Definition _make_item (s e : Z) (v : T) : BlockItem T :=
    mkBlockItem s e v false.

(** [self._blocks[start:stop] = value]. *)
Definition __setitem__ (l : RangeDict.t T) (s e : Z) (v : T)
    : (ref T * ref T) + RangeDict.t T :=
    RangeDict.__setitem__ _trim_left _trim_right _make_item l s e v.

End BlockMapping.
End BlockMapping.

(* ------------------------------------------------------------------ *)
(** ** [class BasicBlocksPlugin] *)

Module BasicBlocksPlugin.
Section BasicBlocksPlugin.
Context {T : Type}.

(** [overlap_handler(this_block, other_block, **handler_kwargs)] returns
    nothing and acts by assigning to attributes of the two records: as a
    function it gives the two records as it leaves them. *)
Definition handler : Type :=
  BlockItem T -> BlockItem T -> BlockItem T * BlockItem T.

(** What a call of [add_block] leaves behind: [self._blocks], the exception
    if one was raised, how many times [self._blocks[...] = irsb] ran, and the
    calls of the handler with the arguments of each. *)
Record outcome : Type := mkOutcome
  { blocks : RangeDict.t T;
    raised : option (exn T);
    placements : nat;
    handled : list (BlockItem T * BlockItem T) }.

(** [self._blocks[start:stop] = value], counted: [count] slice assignments
    were made before this one. *)
Definition assign_slice (count : nat) (self : RangeDict.t T) (s e : Z)
    (v : T) : nat * ((ref T * ref T) + RangeDict.t T) :=
  (S count, BlockMapping.__setitem__ self s e v).

(** [add_block(self, addr, size, irsb, overlap_mode='trim',
    overlap_handler=None, **handler_kwargs)]. *)
Definition add_block (self : RangeDict.t T) (addr size : Z) (irsb : T)
    (overlap_mode : string) (overlap_handler : option handler) : outcome :=
  if size =? 0
  then mkOutcome self (Some (ValueError_empty addr size)) 0 []
  else
    let (count, first) := assign_slice 0 self addr (addr + size) irsb in
    match first with
    | inr stored => mkOutcome stored None count []
    | inl (this_block, other_block) =>
        if String.eqb overlap_mode "handle" then
          let (this_block, other_block) :=
            if negb (BlockItem_addr (deref this_block) =? addr)
            then (other_block, this_block)
            else (this_block, other_block) in
          match overlap_handler with
          | None => mkOutcome self (Some TypeError_not_callable) count []
          | Some h =>
              let (this', other') :=
                h (deref this_block) (deref other_block) in
              mkOutcome
                (RangeDict.assign (RangeDict.assign self this_block this')
                                  other_block other')
                None count [(deref this_block, deref other_block)]
          end
        else if String.eqb overlap_mode "trim" then
          let self :=
            RangeDict.assign self this_block
              (set_second_chance (deref this_block) true) in
          let (count, second) :=
            assign_slice count self addr (addr + size) irsb in
          match second with
          | inr stored => mkOutcome stored None count []
          | inl (this_block, other_block) =>
              mkOutcome self
                (Some (OverlappedBlocks this_block other_block)) count []
          end
        else if String.eqb overlap_mode "raise" then
          mkOutcome self
            (Some (OverlappedBlocks this_block other_block)) count []
        else
          mkOutcome self
            (Some (ValueError_unknown_mode overlap_mode)) count []
    end.

(** [get_block(self, addr)]. *)
Definition get_block (self : RangeDict.t T) (addr : Z) : option (BlockItem T) :=
  RangeDict.peekitem self addr.

(** One call of [add_block], as data. *)
Record call : Type := mkCall
  { c_addr : Z;
    c_size : Z;
    c_irsb : T;
    c_mode : string;
    c_handler : option handler }.

(** A sequence of calls in which none raises: the store it ends in and the
    handler calls it made, or [None] as soon as a call raises. *)
Fixpoint run (self : RangeDict.t T) (calls : list call)
  : option (RangeDict.t T * list (BlockItem T * BlockItem T)) :=
  match calls with
  | [] => Some (self, [])
  | c :: rest =>
      let r := add_block self (c_addr c) (c_size c) (c_irsb c)
                 (c_mode c) (c_handler c) in
      match raised r with
      | Some _ => None
      | None =>
          match run (blocks r) rest with
          | Some (final, log) => Some (final, handled r ++ log)
          | None => None
          end
      end
  end.

(** A subscript or the operand of [in]: an integer, a slice
    [start:stop:step] any part of which may be left out, or a value of some
    other type. *)
Inductive key : Type :=
  | Int (k : Z)
  | Slice (start_ stop step : option Z)
  | Other.

(** What the subscript methods raise before they reach the store:
    [TypeError(key)], [ValueError(key)], the [TypeError] of
    [key.stop - key.start] when a bound is [None], and
    [NotImplementedError]. *)
Inductive key_error : Type :=
  | TypeError_key
  | ValueError_key
  | TypeError_operand
  | NotImplementedError.

(** [__setitem__(self, key, value)]: what is raised before [add_block] is
    called, or what the call of [add_block] leaves behind. *)
Definition __setitem__ (self : RangeDict.t T) (k : key) (value : T)
  : key_error + outcome :=
  match k with
  | Slice start_ stop step =>
      match step with
      | Some _ => inl ValueError_key
      | None =>
          match start_, stop with
          | Some a, Some b => inr (add_block self a (b - a) value "trim" None)
          | _, _ => inl TypeError_operand
          end
      end
  | _ => inl TypeError_key
  end.

(** [iter_blocks(self, start=None, stop=None)]. *)
Definition iter_blocks (self : RangeDict.t T) (start_ stop : option Z)
  : list (BlockItem T) :=
  RangeDict.islice self start_ stop.

(** What [__getitem__] returns: a block or [None] for an integer, a list
    for a slice. *)
Inductive got : Type :=
  | Block (b : option (BlockItem T))
  | Blocks (l : list (BlockItem T)).

(** [__getitem__(self, key)]. *)
Definition __getitem__ (self : RangeDict.t T) (k : key) : key_error + got :=
  match k with
  | Int a => inr (Block (get_block self a))
  | Slice start_ stop step =>
      match step with
      | Some _ => inl ValueError_key
      | None => inr (Blocks (iter_blocks self start_ stop))
      end
  | Other => inl TypeError_key
  end.

(** [__delitem__(self, key)], [del_block(self, addr)] and [copy(self)]. *)
Definition __delitem__ (self : RangeDict.t T) (k : key) : key_error + unit :=
  inl NotImplementedError.
Definition del_block (self : RangeDict.t T) (addr : Z) : key_error + unit :=
  inl NotImplementedError.
Definition copy (self : RangeDict.t T) : key_error + RangeDict.t T :=
  inl NotImplementedError.

(** [__iter__(self)]. *)
Definition __iter__ (self : RangeDict.t T) : list (BlockItem T) :=
  iter_blocks self None None.

(** [__contains__(self, key)]. *)
Definition __contains__ (self : RangeDict.t T) (k : key) : key_error + bool :=
  match k with
  | Int a => inr (RangeDict.contains self a)
  | _ => inl TypeError_key
  end.

(** [get_irsb(self, addr)]: [block.value if block else None]. *)
Definition get_irsb (self : RangeDict.t T) (addr : Z) : option T :=
  match get_block self addr with
  | Some block => Some (value block)
  | None => None
  end.

(** [iter_irsb(self, start=None, stop=None)]: the values of the blocks of
    [iter_blocks], one after the other. *)
Definition iter_irsb (self : RangeDict.t T) (start_ stop : option Z) : list T :=
  map (fun block => value block) (iter_blocks self start_ stop).

End BasicBlocksPlugin.

Arguments key_error : clear implicits.
Arguments got T : clear implicits.
Arguments handler T : clear implicits.
Arguments outcome T : clear implicits.
Arguments call T : clear implicits.
End BasicBlocksPlugin.

(* ------------------------------------------------------------------ *)
(** ** What the store is meant to keep *)

Section Disjointness.
Context {T : Type}.

(** The address [a] lies in the range [start, end) of [b]. *)
Definition covers (b : BlockItem T) (a : Z) : Prop := start b <= a < end_ b.

(** Two ranges do not intersect. *)
Definition disjoint (a b : BlockItem T) : Prop :=
  forall x, ~ (covers a x /\ covers b x).

(** The disjointness invariant: any two distinct stored records have
    ranges that do not intersect. *)
Definition pairwise_disjoint (l : RangeDict.t T) : Prop :=
  forall i j a b, i <> j ->
    nth_error l i = Some a -> nth_error l j = Some b -> disjoint a b.

(** [a] lies wholly before [b], in the order the sequence keeps. *)
Definition before (a b : BlockItem T) : Prop :=
  start a <= start b /\ end_ a <= start b.

(** The sequence is in order and no record reaches into the next. *)
Definition well_formed (l : RangeDict.t T) : Prop := StronglySorted before l.

(** What can be seen of a store: the ranges and the payloads, in order. *)
Definition contents (l : RangeDict.t T) : list (Z * Z * T) :=
  map (fun b => (start b, end_ b, value b)) l.

(** The handlers called in the course of [calls] behave: each leaves the
    records in order, none reaching into the next. *)
Fixpoint handlers_behave (self : RangeDict.t T)
    (calls : list (BasicBlocksPlugin.call T)) : Prop :=
  match calls with
  | [] => True
  | c :: rest =>
      let r := BasicBlocksPlugin.add_block self
                 (BasicBlocksPlugin.c_addr c) (BasicBlocksPlugin.c_size c)
                 (BasicBlocksPlugin.c_irsb c) (BasicBlocksPlugin.c_mode c)
                 (BasicBlocksPlugin.c_handler c) in
      (BasicBlocksPlugin.handled r <> [] ->
       well_formed (BasicBlocksPlugin.blocks r)) /\
      handlers_behave (BasicBlocksPlugin.blocks r) rest
  end.

(** The failures after which the store is to be as it was: an empty block,
    an overlap in mode ['raise'], an unknown mode, a handler that is not
    there. *)
Definition rejection (overlap_mode : string) (e : exn T) : Prop :=
  match e with
  | ValueError_empty _ _ => True
  | ValueError_unknown_mode _ => True
  | TypeError_not_callable => True
  | OverlappedBlocks _ _ => overlap_mode = "raise"%string
  end.

(** Every stored record has a range that is not empty. *)
Definition all_proper (l : RangeDict.t T) : Prop :=
  Forall (fun b => start b < end_ b) l.

End Disjointness.

(* ------------------------------------------------------------------ *)
(** ** [class KnowledgeBase] (angr/knowledge_base.py) *)

Module KnowledgeBase.

(** A Python [dict] with string keys, read by key. *)
Definition dict (V : Type) : Type := string -> option V.

Definition dict_empty {V : Type} : dict V := fun _ => None.

(** [d[k] = v], [del d[k]] and [k in d]. *)
Definition dict_set {V : Type} (d : dict V) (k : string) (v : V) : dict V :=
  fun k' => if String.eqb k' k then Some v else d k'.
Definition dict_del {V : Type} (d : dict V) (k : string) : dict V :=
  fun k' => if String.eqb k' k then None else d k'.
Definition dict_in {V : Type} (k : string) (d : dict V) : bool :=
  match d k with
  | Some _ => true
  | None => false
  end.

Section KnowledgeBase.
(** The project, the object the knowledge is about, the plugin objects,
    and what calling a plugin class may raise. *)
Variables Project Obj Plugin Exc : Type.

(** A knowledge base: the attributes [_project], [obj] and [_plugins], and
    the two sets that [__init__] adds, which are [None] on an object that
    never had them set.  [constructed] is not an attribute: it counts the
    calls [plugin_cls(kb=self)] made on behalf of this object. *)
Record t : Type := mk
  { _project : Project;
    obj : Obj;
    _plugins : dict Plugin;
    unresolved_indirect_jumps : option (list Z);
    resolved_indirect_jumps : option (list Z);
    constructed : nat }.

(** A plugin class, by what calling it with [kb=self] does: it returns a
    plugin or raises. *)
Definition plugin_cls : Type := t -> Exc + Plugin.

(** What [get_plugin] raises. *)
Inductive error : Type :=
  | KnowledgeBaseNoPlugin (name : string)
  | Raised (e : Exc).

(** [__init__(self, project, obj)]. *)
Definition __init__ (project : Project) (o : Obj) : t :=
  mk project o dict_empty (Some []) (Some []) 0.

(** The dictionary that [__getstate__] returns. *)
Record state : Type := mkState
  { s_project : Project;
    s_obj : Obj;
    s_plugins : dict Plugin }.

Definition __getstate__ (self : t) : state :=
  mkState (_project self) (obj self) (_plugins self).

(** [__setstate__(self, state)] on an object that was made without
    [__init__], as unpickling makes it. *)
Definition __setstate__ (st : state) : t :=
  mk (s_project st) (s_obj st) (s_plugins st) None None 0.

(** [__contains__(self, plugin_name)] and [has_plugin(self, name)]. *)
Definition __contains__ (self : t) (plugin_name : string) : bool :=
  dict_in plugin_name (_plugins self).
Definition has_plugin (self : t) (name : string) : bool :=
  dict_in name (_plugins self).

(** [register_plugin(self, name, plugin)]: the knowledge base afterwards;
    the plugin is what is returned. *)
Definition register_plugin (self : t) (name : string) (plugin : Plugin) : t :=
  mk (_project self) (obj self) (dict_set (_plugins self) name plugin)
     (unresolved_indirect_jumps self) (resolved_indirect_jumps self)
     (constructed self).

(** [release_plugin(self, name)]. *)
Definition release_plugin (self : t) (name : string) : t :=
  if dict_in name (_plugins self)
  then mk (_project self) (obj self) (dict_del (_plugins self) name)
          (unresolved_indirect_jumps self) (resolved_indirect_jumps self)
          (constructed self)
  else self.

(** One more call of a plugin class. *)
Definition calling (self : t) : t :=
  mk (_project self) (obj self) (_plugins self)
     (unresolved_indirect_jumps self) (resolved_indirect_jumps self)
     (S (constructed self)).

(** [get_plugin(self, name)], given the class attribute
    [_default_plugins]: the knowledge base afterwards, and the plugin
    returned or the exception raised. *)
Definition get_plugin (_default_plugins : dict plugin_cls) (self : t)
    (name : string) : t * (error + Plugin) :=
  match _plugins self name with
  | Some plugin => (self, inr plugin)
  | None =>
      match _default_plugins name with
      | Some cls =>
          match cls self with
          | inr plugin => (register_plugin (calling self) name plugin, inr plugin)
          | inl e => (calling self, inl (Raised e))
          end
      | None => (self, inl (KnowledgeBaseNoPlugin name))
      end
  end.

(** [__getattr__(self, v)], which Python calls for an attribute it does
    not find. *)
Definition __getattr__ (_default_plugins : dict plugin_cls) (self : t)
    (v : string) : t * (error + Plugin) :=
  get_plugin _default_plugins self v.

(** [register_default(cls, name, plugin_cls)]: the class attribute
    afterwards, and whether [l.warn] was called. *)
Definition register_default (_default_plugins : dict plugin_cls)
    (name : string) (cls : plugin_cls) : dict plugin_cls * bool :=
  (dict_set _default_plugins name cls, dict_in name _default_plugins).

End KnowledgeBase.
End KnowledgeBase.

(* ------------------------------------------------------------------ *)
(** ** Stores and handlers used to run the code on concrete inputs *)

Module Examples.

(** A payload stands for a decoded block; numbers tell them apart. *)
Definition item (s e : Z) (v : nat) : BlockItem nat := mkBlockItem s e v false.

(** The store after [add_block(10, 10, 1)]. *)
Definition one_block : RangeDict.t nat := [item 10 20 1].

(** The store after [add_block(10, 10, 1)] and [add_block(30, 10, 3)]. *)
Definition two_blocks : RangeDict.t nat := [item 10 20 1; item 30 40 3].

(** The handler of [test_handle]: [other_item.end = this_item.start]. *)
Definition _ovarlap_handler : BasicBlocksPlugin.handler nat :=
  fun this_item other_item => (this_item, set_end other_item (start this_item)).

(** A handler that does the wrong thing: [other_item.end = 35]. *)
Definition stretching_handler : BasicBlocksPlugin.handler nat :=
  fun this_item other_item => (this_item, set_end other_item 35).

(** Three calls, each of which returns: two blocks apart from each other,
    then a block between them that overlaps the first, handed to
    [stretching_handler]. *)
Definition stretching_calls : list (BasicBlocksPlugin.call nat) :=
  [ BasicBlocksPlugin.mkCall 10 10 1%nat "trim" None;
    BasicBlocksPlugin.mkCall 30 10 3%nat "trim" None;
    BasicBlocksPlugin.mkCall 15 10 2%nat "handle" (Some stretching_handler) ].

(** Three calls that return: a block, a block that starts inside it, in
    the default mode, and a third that starts inside the first, handed to
    the handler of [test_handle]. *)
Definition behaving_calls : list (BasicBlocksPlugin.call nat) :=
  [ BasicBlocksPlugin.mkCall 10 10 1%nat "trim" None;
    BasicBlocksPlugin.mkCall 15 10 2%nat "trim" None;
    BasicBlocksPlugin.mkCall 12 5 4%nat "handle" (Some _ovarlap_handler) ].

(** A store whose one record has an empty range, from 10 to 10: what a
    handler leaves that cuts a stored block back to its own start. *)
Definition emptied_block : RangeDict.t nat := [item 10 10 1].

End Examples.

(** A knowledge base to run [get_plugin] on: plugins are numbers, a plugin
    class is known by the number it returns, and a class may refuse to be
    called. *)
Module KBExamples.

Definition kb : Type := KnowledgeBase.t unit unit nat.
Definition cls : Type := KnowledgeBase.plugin_cls unit unit nat string.

(** A class whose objects are numbered by the calls made so far. *)
Definition counting : cls :=
  fun self => inr (KnowledgeBase.constructed self).

(** A class whose [__init__] does not take [kb]. *)
Definition refusing : cls := fun _ => inl "TypeError"%string.

(** The defaults: 'basic_blocks' and 'labels'. *)
Definition defaults : KnowledgeBase.dict cls :=
  KnowledgeBase.dict_set
    (KnowledgeBase.dict_set KnowledgeBase.dict_empty "basic_blocks" counting)
    "labels" refusing.

Definition fresh : kb := KnowledgeBase.__init__ nat tt tt.

(** [fresh] after 'functions' was registered by hand. *)
Definition with_functions : kb :=
  KnowledgeBase.register_plugin fresh "functions" 42%nat.

End KBExamples.

(* ------------------------------------------------------------------ *)
(** * Properties *)

(** ** Records and hooks *)

Section HookFacts.
Context {T : Type}.
Implicit Types this left right b : BlockItem T.

Lemma set_second_chance_same b :
  second_chance b = false -> set_second_chance b false = b.
Proof. destruct b; simpl; intros ->; reflexivity. Qed.

Lemma survives_unchanged b : RangeDict.survives b b = [b].
Proof.
  unfold RangeDict.survives.
  rewrite !Z.eqb_refl, orb_true_r. reflexivity.
Qed.

Lemma survives_cases b b' :
  RangeDict.survives b b' = [] \/
  (RangeDict.survives b b' = [b'] /\
   (start b' < end_ b' \/ (start b' = start b /\ end_ b' = end_ b))).
Proof.
  unfold RangeDict.survives.
  destruct (start b' <? end_ b') eqn:E1; simpl.
  - right. split; [reflexivity|]. left. apply Z.ltb_lt. exact E1.
  - destruct ((start b' =? start b) && (end_ b' =? end_ b)) eqn:E2.
    + right. split; [reflexivity|]. right.
      apply andb_true_iff in E2 as [Ea Eb].
      apply Z.eqb_eq in Ea, Eb. auto.
    + left. reflexivity.
Qed.

(** [_trim_right] raises exactly on a record without a second chance that
    reaches into its right neighbour, and hands both over as they are. *)
Lemma _trim_right_raises this right a b :
  BlockMapping._trim_right this right = RangeDict.Overlap a b ->
  a = this /\ b = right /\
  start right < end_ this /\ second_chance this = false.
Proof.
  unfold BlockMapping._trim_right, RangeDict._trim_right.
  destruct ((end_ this >? start right) && negb (second_chance this)) eqn:E.
  - intros [= <- <-]. apply andb_true_iff in E as [E1 E2].
    rewrite Z.gtb_ltb in E1. apply Z.ltb_lt in E1.
    apply negb_true_iff in E2. auto.
  - simpl. destruct (start right <? end_ this); discriminate.
Qed.

(** When it returns, the neighbour is as it was and [this_item] has lost
    its flag and whatever reached into the neighbour. *)
Lemma _trim_right_returns this right this' right' :
  BlockMapping._trim_right this right = RangeDict.Trimmed this' right' ->
  right' = right /\
  start this' = start this /\ value this' = value this /\
  second_chance this' = false /\
  end_ this' <= start right /\ end_ this' <= end_ this /\
  (end_ this <= start right -> end_ this' = end_ this) /\
  (start right < end_ this -> end_ this' = start right).
Proof.
  unfold BlockMapping._trim_right, RangeDict._trim_right.
  destruct ((end_ this >? start right) && negb (second_chance this));
    [discriminate|].
  simpl. destruct (start right <? end_ this) eqn:E;
    intros [= <- <-]; simpl;
    [apply Z.ltb_lt in E | apply Z.ltb_ge in E]; repeat split; lia.
Qed.

Lemma _trim_left_raises this left a b :
  BlockMapping._trim_left this left = RangeDict.Overlap a b ->
  a = this /\ b = left /\
  start this < end_ left /\ second_chance this = false.
Proof.
  unfold BlockMapping._trim_left, RangeDict._trim_left.
  destruct ((start this <? end_ left) && negb (second_chance this)) eqn:E.
  - intros [= <- <-]. apply andb_true_iff in E as [E1 E2].
    apply Z.ltb_lt in E1. apply negb_true_iff in E2. auto.
  - simpl. destruct (start this <? end_ left); discriminate.
Qed.

Lemma _trim_left_returns this left this' left' :
  BlockMapping._trim_left this left = RangeDict.Trimmed this' left' ->
  left' = left /\
  end_ this' = end_ this /\ value this' = value this /\
  second_chance this' = false /\
  end_ left <= start this' /\ start this <= start this' /\
  (end_ left <= start this -> start this' = start this) /\
  (start this < end_ left -> start this' = end_ left).
Proof.
  unfold BlockMapping._trim_left, RangeDict._trim_left.
  destruct ((start this <? end_ left) && negb (second_chance this));
    [discriminate|].
  simpl. destruct (start this <? end_ left) eqn:E;
    intros [= <- <-]; simpl;
    [apply Z.ltb_lt in E | apply Z.ltb_ge in E]; repeat split; lia.
Qed.

(** A record without a second chance that reaches into its neighbour is
    refused. *)
Lemma _trim_right_refuses this right :
  second_chance this = false -> start right < end_ this ->
  BlockMapping._trim_right this right = RangeDict.Overlap this right.
Proof.
  intros Hf Hov. unfold BlockMapping._trim_right.
  assert (E : (end_ this >? start right) = true)
    by (rewrite Z.gtb_ltb; apply Z.ltb_lt; exact Hov).
  rewrite E, Hf. reflexivity.
Qed.



(** A record clear of its neighbour is let through as it is, but for the
    flag. *)
Lemma _trim_right_clear this right :
  end_ this <= start right ->
  BlockMapping._trim_right this right
    = RangeDict.Trimmed (set_second_chance this false) right.
Proof.
  intros H. unfold BlockMapping._trim_right, RangeDict._trim_right.
  assert (E : (end_ this >? start right) = false)
    by (rewrite Z.gtb_ltb; apply Z.ltb_ge; exact H).
  rewrite E. simpl. rewrite Z.gtb_ltb in E. rewrite E. reflexivity.
Qed.

Lemma _trim_left_clear this left :
  end_ left <= start this ->
  BlockMapping._trim_left this left
    = RangeDict.Trimmed (set_second_chance this false) left.
Proof.
  intros H. unfold BlockMapping._trim_left, RangeDict._trim_left.
  assert (E : (start this <? end_ left) = false) by (apply Z.ltb_ge; exact H).
  rewrite E. simpl. rewrite E. reflexivity.
Qed.

End HookFacts.

(* ------------------------------------------------------------------ *)
(** ** Lists, order and disjointness *)

Section OrderFacts.
Context {T : Type}.
Implicit Types (l ls rs : RangeDict.t T) (this a b c : BlockItem T).

Lemma split_at_app s l ls rs :
  RangeDict.split_at s l = (ls, rs) -> l = ls ++ rs.
Proof.
  revert ls rs. induction l as [|b l IH]; simpl; intros ls rs H.
  - injection H as <- <-. reflexivity.
  - destruct (start b <=? s).
    + destruct (RangeDict.split_at s l) as [ls' rs'].
      injection H as <- <-. simpl. f_equal. apply IH. reflexivity.
    + injection H as <- <-. reflexivity.
Qed.

Lemma split_at_left s l ls rs :
  RangeDict.split_at s l = (ls, rs) -> Forall (fun b => start b <= s) ls.
Proof.
  revert ls rs. induction l as [|b l IH]; simpl; intros ls rs H.
  - injection H as <- <-. constructor.
  - destruct (start b <=? s) eqn:E.
    + destruct (RangeDict.split_at s l) as [ls' rs'].
      injection H as <- <-. constructor; [lia | eapply IH; reflexivity].
    + injection H as <- <-. constructor.
Qed.

Lemma split_at_right s l ls rs b rs' :
  RangeDict.split_at s l = (ls, rs) -> rs = b :: rs' -> s < start b.
Proof.
  revert ls rs. induction l as [|x l IH]; simpl; intros ls rs H Hrs.
  - injection H as <- <-. discriminate.
  - destruct (start x <=? s) eqn:E.
    + destruct (RangeDict.split_at s l) as [ls' rs''].
      injection H as <- <-. eapply IH; [reflexivity | exact Hrs].
    + injection H as <- <-. injection Hrs as -> ->. lia.
Qed.

Lemma rev_cons_last (A : Type) (xs : list A) x rpre :
  rev xs = x :: rpre -> xs = rev rpre ++ [x].
Proof.
  intros H. rewrite <- (rev_involutive xs), H. reflexivity.
Qed.

Lemma nth_error_middle (A : Type) (xs ys : list A) (x : A) :
  nth_error (xs ++ x :: ys) (List.length xs) = Some x.
Proof. induction xs; simpl; auto. Qed.



Lemma update_middle ls rs b b' :
  RangeDict.update (ls ++ b :: rs) (List.length ls) b' = ls ++ b' :: rs.
Proof. induction ls as [|x ls IH]; simpl; [reflexivity | now rewrite IH]. Qed.

Lemma nth_error_split_exact l i b :
  nth_error l i = Some b ->
  exists ls rs, l = ls ++ b :: rs /\ List.length ls = i.
Proof.
  intros H. apply nth_error_split in H as (ls & rs & -> & <-). eauto.
Qed.

Lemma Forall_update (P : BlockItem T -> Prop) l i b :
  Forall P l -> P b -> Forall P (RangeDict.update l i b).
Proof.
  intros Hl Hb. revert i. induction Hl as [|x l Hx Hl IH]; intros [|i]; simpl;
    constructor; auto.
Qed.

Lemma before_trans a b c : before a b -> before b c -> before a c.
Proof. unfold before. lia. Qed.

Lemma before_disjoint a b : before a b -> disjoint a b.
Proof. unfold before, disjoint, covers. intros H x. lia. Qed.

Lemma disjoint_sym a b : disjoint a b -> disjoint b a.
Proof. unfold disjoint. intros H x [Hb Ha]. exact (H x (conj Ha Hb)). Qed.

Lemma well_formed_app ls rs :
  well_formed (ls ++ rs) <->
  well_formed ls /\ well_formed rs /\
  Forall (fun x => Forall (before x) rs) ls.
Proof.
  unfold well_formed. induction ls as [|x ls IH]; simpl.
  - split; [intros H; repeat split; auto; constructor | tauto].
  - split.
    + intros H. apply StronglySorted_inv in H as [Hs Hf].
      apply IH in Hs as (Hl & Hr & Hlr).
      apply Forall_app in Hf as [Hf1 Hf2].
      repeat split; auto; constructor; auto.
    + intros (Hl & Hr & Hlr).
      apply StronglySorted_inv in Hl as [Hl Hf].
      apply Forall_cons_iff in Hlr as [Hx Hlr].
      constructor; [apply IH; auto | apply Forall_app; auto].
Qed.

Lemma well_formed_nth l : well_formed l ->
  forall i j a b, (i < j)%nat ->
    nth_error l i = Some a -> nth_error l j = Some b -> before a b.
Proof.
  unfold well_formed. induction 1 as [|x l Hs IH Hf]; intros i j a b Hij Ha Hb.
  - destruct i; discriminate.
  - destruct j as [|j]; [lia|]. simpl in Hb.
    destruct i as [|i]; simpl in Ha.
    + injection Ha as <-. rewrite Forall_forall in Hf.
      apply Hf. eapply nth_error_In; eauto.
    + eapply IH; [|eauto|eauto]. lia.
Qed.

(** An ordered sequence in which no record reaches into the next keeps the
    disjointness invariant. *)
Lemma well_formed_pairwise_disjoint l :
  well_formed l -> pairwise_disjoint l.
Proof.
  intros Hw i j a b Hij Ha Hb.
  destruct (Nat.lt_ge_cases i j) as [Hlt|Hge].
  - apply before_disjoint. eapply well_formed_nth; eauto.
  - apply disjoint_sym, before_disjoint.
    eapply (@well_formed_nth l Hw j i); eauto. lia.
Qed.

(** Assigning to an attribute other than the bounds of a stored record
    leaves the order as it is. *)
Lemma well_formed_update l i b b' :
  well_formed l -> nth_error l i = Some b ->
  start b' = start b -> end_ b' = end_ b ->
  well_formed (RangeDict.update l i b').
Proof.
  unfold well_formed. intros Hw. revert i.
  induction Hw as [|x l Hs IH Hf]; intros i Hn Hst Hen.
  - destruct i; discriminate.
  - destruct i as [|i]; simpl in *.
    + injection Hn as ->. constructor; [exact Hs|].
      eapply Forall_impl; [|exact Hf]. unfold before. intros y.
      rewrite Hst, Hen. auto.
    + constructor; [apply IH; auto|].
      apply Forall_update; [exact Hf|].
      rewrite Forall_forall in Hf. apply nth_error_In in Hn.
      specialize (Hf _ Hn). unfold before in *. lia.
Qed.

(** A new record between two ordered parts that it is in order with. *)
Lemma well_formed_middle ls rs this :
  well_formed ls -> well_formed rs ->
  Forall (fun x => before x this) ls -> Forall (before this) rs ->
  well_formed (ls ++ this :: rs).
Proof.
  intros Hl Hr Hlt Htr. apply well_formed_app.
  split; [exact Hl|]. split.
  - constructor; [exact Hr | exact Htr].
  - eapply Forall_impl; [|exact Hlt]. intros x Hx. constructor; [exact Hx|].
    eapply Forall_impl; [|exact Htr]. intros y Hy.
    exact (before_trans Hx Hy).
Qed.

End OrderFacts.

(* ------------------------------------------------------------------ *)
(** ** Placement with the hooks of [BlockMapping] *)

Section PlacementFacts.
Context {T : Type}.
Implicit Types (l ls rs : RangeDict.t T) (new this : BlockItem T).

(** The walk to the right raises at a stored record without a second
    chance that the new record reaches into, and names it together with
    the new record. *)
Lemma place_right_raises new rs : forall idx a b,
  RangeDict.place_right BlockMapping._trim_left new idx rs = inl (a, b) ->
  b = Fresh new /\
  exists k R, a = Stored (idx + k) R /\ nth_error rs k = Some R /\
    start R < end_ new /\ second_chance R = false.
Proof.
  induction rs as [|R post IH]; simpl; intros idx a b H; [discriminate|].
  destruct (BlockMapping._trim_left R new) as [x y|R' new'] eqn:E.
  - injection H as <- <-.
    apply _trim_left_raises in E as (-> & -> & Hov & Hf).
    split; [reflexivity|]. exists 0%nat, R. rewrite Nat.add_0_r. auto.
  - apply _trim_left_returns in E as (-> & _).
    destruct (RangeDict.survives R R'); [|discriminate].
    apply IH in H as (-> & k & R0 & -> & Hn & Hov & Hf).
    split; [reflexivity|]. exists (S k), R0.
    rewrite Nat.add_succ_r. simpl. auto.
Qed.

(** When it returns, the new record is as it was, and what is left of the
    records to the right is in order behind it. *)
Lemma place_right_returns new rs : forall idx new' rs',
  well_formed rs -> Forall (fun y => start new <= start y) rs ->
  RangeDict.place_right BlockMapping._trim_left new idx rs = inr (new', rs') ->
  new' = new /\ well_formed rs' /\ Forall (before new) rs'.
Proof.
  induction rs as [|R post IH]; simpl; intros idx new' rs' Hw Hs H.
  - injection H as <- <-. repeat split; constructor.
  - destruct (BlockMapping._trim_left R new) as [x y|R' new0] eqn:E;
      [discriminate|].
    apply _trim_left_returns in E as (-> & He & _ & _ & Hc & Hge & Hk & Hcut).
    apply StronglySorted_inv in Hw as [Hw Hf].
    apply Forall_cons_iff in Hs as [HsR Hs].
    destruct (survives_cases R R') as [Es | [Es Hkeep]]; rewrite Es in H.
    + eapply IH; eauto.
    + simpl in H. injection H as <- <-.
      assert (HR' : Forall (before R') post).
      { eapply Forall_impl; [|exact Hf]. unfold before. intros y. lia. }
      split; [reflexivity|]. split; [constructor; assumption|].
      constructor; [unfold before; lia|].
      eapply Forall_impl; [|exact HR']. unfold before. intros y. lia.
Qed.

(** A record clear of everything to its right goes by the first of them
    only, which keeps its range. *)
Lemma place_right_clear new rs idx :
  match rs with [] => True | R :: _ => end_ new <= start R end ->
  RangeDict.place_right BlockMapping._trim_left new idx rs
    = inr (new, match rs with
                | [] => []
                | R :: post => set_second_chance R false :: post
                end).
Proof.
  destruct rs as [|R post]; simpl; intros H; [reflexivity|].
  rewrite (_trim_left_clear R new H).
  unfold RangeDict.survives. simpl.
  rewrite !Z.eqb_refl, orb_true_r. reflexivity.
Qed.

(** [self._blocks[s:e] = v] raises at a stored record without a second
    chance, and the exception names that record first and the record that
    was being inserted second. *)
Lemma __setitem___raises l s e v this_block other_block :
  BlockMapping.__setitem__ l s e v = inl (this_block, other_block) ->
  other_block = Fresh (BlockMapping._make_item s e v) /\
  exists i b, this_block = Stored i b /\ nth_error l i = Some b /\
    second_chance b = false.
Proof.
  unfold BlockMapping.__setitem__, RangeDict.__setitem__, RangeDict.place.
  set (new := BlockMapping._make_item s e v).
  change (start new) with s.
  destruct (RangeDict.split_at s l) as [ls rs] eqn:Hs.
  pose proof (split_at_app _ _ Hs) as ->.
  destruct (rev ls) as [|L rpre] eqn:Hrev.
  - destruct (RangeDict.place_right _ new _ rs) as [[a b]|[n2 rs']] eqn:Hr;
      [|discriminate].
    intros [= <- <-].
    apply place_right_raises in Hr as (-> & k & R & -> & Hn & Hov & Hf).
    split; [reflexivity|]. exists (List.length ls + k)%nat, R.
    split; [reflexivity|].
    rewrite nth_error_app2 by lia.
    replace (List.length ls + k - List.length ls)%nat with k by lia.
    auto.
  - destruct (BlockMapping._trim_right L new) as [x y|L' new'] eqn:E.
    + intros [= <- <-].
      apply _trim_right_raises in E as (-> & -> & Hov & Hf).
      split; [reflexivity|]. exists (List.length rpre), L.
      split; [reflexivity|]. split; [|exact Hf].
      rewrite (rev_cons_last _ Hrev), <- app_assoc. simpl.
      rewrite <- length_rev. apply nth_error_middle.
    + apply _trim_right_returns in E as (-> & _).
      destruct (RangeDict.place_right _ new _ rs) as [[a b]|[n2 rs']] eqn:Hr;
        [|discriminate].
      intros [= <- <-].
      apply place_right_raises in Hr as (-> & k & R & -> & Hn & Hov & Hf).
      split; [reflexivity|]. exists (List.length ls + k)%nat, R.
      split; [reflexivity|].
      rewrite nth_error_app2 by lia.
      replace (List.length ls + k - List.length ls)%nat with k by lia.
      auto.
Qed.

(** When [self._blocks[s:e] = v] returns on an ordered sequence, the
    sequence is ordered again, and the new record is in it with the range
    and the value it was made with. *)
Lemma __setitem___returns l s e v l' :
  well_formed l ->
  BlockMapping.__setitem__ l s e v = inr l' ->
  well_formed l' /\
  exists ls' rs', l' = ls' ++ BlockMapping._make_item s e v :: rs'.
Proof.
  unfold BlockMapping.__setitem__, RangeDict.__setitem__, RangeDict.place.
  set (new := BlockMapping._make_item s e v).
  change (start new) with s.
  destruct (RangeDict.split_at s l) as [ls rs] eqn:Hs.
  intros Hw.
  pose proof (split_at_app _ _ Hs) as ->.
  pose proof (split_at_left _ _ Hs) as Hl.
  apply well_formed_app in Hw as (Hwl & Hwr & Hlr).
  assert (Hrs : Forall (fun y => start new <= start y) rs).
  { destruct rs as [|R post]; [constructor|].
    pose proof (split_at_right _ _ Hs eq_refl) as HR.
    apply StronglySorted_inv in Hwr as [_ Hf].
    constructor; [simpl; lia|].
    eapply Forall_impl; [|exact Hf]. unfold before. simpl. intros y. lia. }
  destruct (rev ls) as [|L rpre] eqn:Hrev.
  - destruct (RangeDict.place_right _ new _ rs) as [[a b]|[n2 rs']] eqn:Hr;
      [discriminate|].
    intros [= <-].
    apply place_right_returns in Hr as (-> & Hw' & Hb); auto.
    split; [|exists [], rs'; reflexivity].
    apply (@well_formed_middle _ [] rs' new); auto; constructor.
  - destruct (BlockMapping._trim_right L new) as [x y|L' new'] eqn:E;
      [discriminate|].
    apply _trim_right_returns in E as (-> & Hst & _ & _ & Hc & Hle & _).
    destruct (RangeDict.place_right _ new _ rs) as [[a b]|[n2 rs']] eqn:Hr;
      [discriminate|].
    intros [= <-].
    apply place_right_returns in Hr as (-> & Hw' & Hb); auto.
    split; [|eexists _, rs'; reflexivity].
    rewrite (rev_cons_last _ Hrev) in Hwl, Hl.
    apply well_formed_app in Hwl as (Hwp & _ & HpL).
    apply Forall_app in Hl as [Hlp HlL].
    apply Forall_cons_iff in HlL as [HlL _].
    assert (HpL' : Forall (fun x => before x L') (rev rpre)).
    { eapply Forall_impl; [|exact HpL]. intros x Hx.
      apply Forall_cons_iff in Hx as [Hx _]. unfold before in *. lia. }
    apply well_formed_middle; auto.
    + apply well_formed_app. split; [exact Hwp|]. split.
      * destruct (survives_cases L L') as [-> | [-> _]];
          [constructor | constructor; constructor].
      * eapply Forall_impl; [|exact HpL']. intros x Hx.
        destruct (survives_cases L L') as [-> | [-> _]];
          [constructor | constructor; [exact Hx | constructor]].
    + apply Forall_app. split.
      * eapply Forall_impl; [|exact HpL']. intros x Hx.
        unfold before, new in *. simpl in *. lia.
      * destruct (survives_cases L L') as [-> | [-> _]];
          [constructor | constructor; [|constructor]].
        unfold before, new in *. simpl in *. lia.
Qed.

End PlacementFacts.

(* ------------------------------------------------------------------ *)
(** ** [add_block] *)

Section AddBlockFacts.
Context {T : Type}.
Implicit Types (self : RangeDict.t T) (irsb : T) (mode : string).

Import BasicBlocksPlugin.

(** When the first placement returns, that is all [add_block] does. *)
Lemma add_block_placed self addr size irsb mode (oh : option (handler T))
    stored :
  size <> 0 ->
  BlockMapping.__setitem__ self addr (addr + size) irsb = inr stored ->
  add_block self addr size irsb mode oh = mkOutcome stored None 1 [].
Proof.
  intros Hsize Hset. unfold add_block, assign_slice.
  apply Z.eqb_neq in Hsize. rewrite Hsize, Hset. reflexivity.
Qed.

(** When it raises, the mode decides. *)
Lemma add_block_on_overlap self addr size irsb mode (oh : option (handler T))
    this_block other_block :
  size <> 0 ->
  BlockMapping.__setitem__ self addr (addr + size) irsb
    = inl (this_block, other_block) ->
  add_block self addr size irsb mode oh =
    if String.eqb mode "handle" then
      let (this_block, other_block) :=
        if negb (BlockItem_addr (deref this_block) =? addr)
        then (other_block, this_block)
        else (this_block, other_block) in
      match oh with
      | None => mkOutcome self (Some TypeError_not_callable) 1 []
      | Some h =>
          let (this', other') := h (deref this_block) (deref other_block) in
          mkOutcome
            (RangeDict.assign (RangeDict.assign self this_block this')
                              other_block other')
            None 1 [(deref this_block, deref other_block)]
      end
    else if String.eqb mode "trim" then
      let marked :=
        RangeDict.assign self this_block
          (set_second_chance (deref this_block) true) in
      match BlockMapping.__setitem__ marked addr (addr + size) irsb with
      | inr stored => mkOutcome stored None 2 []
      | inl (this_block, other_block) =>
          mkOutcome marked
            (Some (OverlappedBlocks this_block other_block)) 2 []
      end
    else if String.eqb mode "raise" then
      mkOutcome self (Some (OverlappedBlocks this_block other_block)) 1 []
    else
      mkOutcome self (Some (ValueError_unknown_mode mode)) 1 [].
Proof.
  intros Hsize Hset. unfold add_block, assign_slice.
  apply Z.eqb_neq in Hsize. rewrite Hsize, Hset. reflexivity.
Qed.

(** The handler is called in mode 'handle' only. *)
Lemma handled_only_in_handle self addr size irsb mode
    (oh : option (handler T)) :
  handled (add_block self addr size irsb mode oh) <> [] ->
  mode = "handle"%string.
Proof.
  destruct (Z.eq_dec size 0) as [->|Hsize]; [intros H; now elim H|].
  destruct (BlockMapping.__setitem__ self addr (addr + size) irsb)
    as [[this_block other_block]|stored] eqn:Hset.
  - rewrite (@add_block_on_overlap self addr size irsb mode oh
               _ _ Hsize Hset).
    destruct (String.eqb mode "handle") eqn:E;
      [intros _; now apply String.eqb_eq|].
    destruct (String.eqb mode "trim").
    + cbv zeta.
      destruct (BlockMapping.__setitem__ (RangeDict.assign _ _ _) _ _ _)
        as [[? ?]|?]; intros H; now elim H.
    + destruct (String.eqb mode "raise"); intros H; now elim H.
  - rewrite (@add_block_placed self addr size irsb mode oh _ Hsize Hset).
    intros H; now elim H.
Qed.

(** A call that returns keeps the records in order, none reaching into
    the next, provided the handler did if it was called. *)
Lemma add_block_well_formed self addr size irsb mode
    (oh : option (handler T)) :
  let r := add_block self addr size irsb mode oh in
  well_formed self ->
  raised r = None ->
  (handled r <> [] -> well_formed (blocks r)) ->
  well_formed (blocks r).
Proof.
  intros r Hw Hr Hh. subst r.
  destruct (Z.eq_dec size 0) as [->|Hsize]; [exact Hw|].
  destruct (BlockMapping.__setitem__ self addr (addr + size) irsb)
    as [[this_block other_block]|stored] eqn:Hset.
  - rewrite (@add_block_on_overlap self addr size irsb mode oh
               _ _ Hsize Hset) in *.
    destruct (__setitem___raises _ _ _ _ Hset) as (-> & i & b & -> & Hn & _).
    destruct (String.eqb mode "handle").
    + destruct (negb _); destruct oh as [h|]; try discriminate;
        destruct (h _ _); apply Hh; discriminate.
    + destruct (String.eqb mode "trim").
      * cbv zeta in *.
        destruct (BlockMapping.__setitem__ (RangeDict.assign _ _ _) _ _ _)
          as [[t o]|stored] eqn:Hset2; [discriminate|].
        simpl. eapply __setitem___returns; [|exact Hset2].
        simpl. eapply well_formed_update; eauto.
      * destruct (String.eqb mode "raise"); discriminate.
  - rewrite (@add_block_placed self addr size irsb mode oh _ Hsize Hset).
    simpl. eapply __setitem___returns; eauto.
Qed.

(** So does a sequence of calls that all return. *)
Lemma run_well_formed (calls : list (call T)) : forall self final log,
  well_formed self ->
  handlers_behave self calls ->
  run self calls = Some (final, log) ->
  well_formed final.
Proof.
  induction calls as [|c rest IH]; simpl; intros self final log Hw Hb Hrun.
  - injection Hrun as <- _. exact Hw.
  - destruct Hb as [Hb Hrest].
    destruct (raised (add_block self (c_addr c) (c_size c) (c_irsb c)
                        (c_mode c) (c_handler c))) eqn:Hr; [discriminate|].
    destruct (run _ rest) as [[final' log']|] eqn:Hrun'; [|discriminate].
    injection Hrun as <- _.
    eapply IH; [|exact Hrest|exact Hrun'].
    apply add_block_well_formed; auto.
Qed.

End AddBlockFacts.

(* ------------------------------------------------------------------ *)
(** ** Placements that touch no range, and placements that trim *)

Section ShapeFacts.
Context {T : Type}.
Implicit Types (l ls rs : RangeDict.t T) (new this L R : BlockItem T).

Import BasicBlocksPlugin.

Lemma survives_same_range this this' :
  start this' = start this -> end_ this' = end_ this ->
  RangeDict.survives this this' = [this'].
Proof.
  intros Hs He. unfold RangeDict.survives.
  rewrite Hs, He, !Z.eqb_refl, orb_true_r. reflexivity.
Qed.

Lemma contents_app ls rs : contents (ls ++ rs) = contents ls ++ contents rs.
Proof. apply map_app. Qed.

Lemma contents_clear_head rs :
  contents match rs with
           | [] => []
           | R :: post => set_second_chance R false :: post
           end = contents rs.
Proof. destruct rs; reflexivity. Qed.

(** A record that its neighbours on both sides are clear of goes in
    between them, and no range and no payload changes. *)
Lemma __setitem___clear l s e v :
  Forall (fun b => (start b <= s -> end_ b <= s) /\
                   (s < start b -> e <= start b)) l ->
  exists l' xs ys,
    BlockMapping.__setitem__ l s e v = inr l' /\
    contents l = xs ++ ys /\
    contents l' = xs ++ (s, e, v) :: ys.
Proof.
  unfold BlockMapping.__setitem__, RangeDict.__setitem__, RangeDict.place.
  set (new := BlockMapping._make_item s e v).
  change (start new) with s.
  destruct (RangeDict.split_at s l) as [ls rs] eqn:Hs.
  intros Hc.
  pose proof (split_at_app _ _ Hs) as ->.
  pose proof (split_at_left _ _ Hs) as Hl.
  apply Forall_app in Hc as [Hcl Hcr].
  assert (Hr : match rs with [] => True | R :: _ => end_ new <= start R end).
  { destruct rs as [|R post]; [exact I|].
    pose proof (split_at_right _ _ Hs eq_refl) as HR.
    apply Forall_cons_iff in Hcr as [[_ HcR] _]. simpl. auto. }
  destruct (rev ls) as [|L rpre] eqn:Hrev.
  - assert (ls = []) as ->
      by (rewrite <- (rev_involutive ls), Hrev; reflexivity).
    rewrite (place_right_clear new rs _ Hr).
    eexists _, [], (contents rs). split; [reflexivity|].
    split; [reflexivity|]. simpl. f_equal. apply contents_clear_head.
  - rewrite (rev_cons_last _ Hrev) in *.
    apply Forall_app in Hl as [_ Hl]. apply Forall_cons_iff in Hl as [Hl _].
    apply Forall_app in Hcl as [_ Hcl].
    apply Forall_cons_iff in Hcl as [[HcL _] _].
    rewrite (_trim_right_clear L new (HcL Hl)).
    rewrite survives_same_range by reflexivity.
    rewrite (place_right_clear new rs _ Hr).
    eexists _, (contents (rev rpre ++ [L])), (contents rs).
    split; [reflexivity|]. split; [apply contents_app|].
    rewrite !contents_app. simpl. rewrite contents_clear_head. reflexivity.
Qed.

(** The split of a sequence looks at where the records start and at
    nothing else. *)
Lemma split_at_same_start s ls L L' rs :
  RangeDict.split_at s (ls ++ L :: rs) = (ls ++ [L], rs) ->
  start L' = start L ->
  RangeDict.split_at s (ls ++ L' :: rs) = (ls ++ [L'], rs).
Proof.
  intros H Hst. induction ls as [|x ls IH]; simpl in *.
  - rewrite Hst. destruct (start L <=? s).
    + destruct (RangeDict.split_at s rs) as [a b].
      injection H as Ha Hb. destruct a; [|discriminate]. now subst.
    + discriminate.
  - destruct (start x <=? s); [|discriminate].
    destruct (RangeDict.split_at s (ls ++ L :: rs)) as [a b].
    injection H as Ha Hb. subst a b. rewrite IH; reflexivity.
Qed.

End ShapeFacts.

(* ------------------------------------------------------------------ *)
(** * The claims *)

Section Claims.
Context {T : Type}.
Implicit Types (self : RangeDict.t T) (irsb : T) (mode : string).

Import BasicBlocksPlugin.

(** Claim C1, as amended: after any sequence of [add_block] calls that all
    return, in any mix of the modes 'trim', 'handle' and 'raise' and
    starting from the empty store, the ranges of the stored records are
    pairwise disjoint, provided every handler that was called left the
    records in order with none reaching into the next.  Calls in the modes
    'trim' and 'raise' keep this by themselves. *)
Theorem disjoint_while_handlers_behave (calls : list (call T)) final log :
  handlers_behave [] calls ->
  run [] calls = Some (final, log) ->
  pairwise_disjoint final.
Proof.
  intros Hb Hrun. apply well_formed_pairwise_disjoint.
  eapply run_well_formed; [|exact Hb|exact Hrun]. constructor.
Qed.

(** Claim C2, as amended: in mode 'handle', when the placement raises and the
    handler returns, [add_block] returns too, whatever the handler did to the
    records: the handler is given the record that starts at [addr] first and
    the other second, the store is the old one with the handler's
    assignments to the two records, and nothing is checked. *)
Theorem handle_returns_unchecked self addr size irsb
    (h : handler T) this_block other_block :
  size <> 0 ->
  BlockMapping.__setitem__ self addr (addr + size) irsb
    = inl (this_block, other_block) ->
  let r := add_block self addr size irsb "handle" (Some h) in
  let swap := negb (BlockItem_addr (deref this_block) =? addr) in
  let new_block := if swap then other_block else this_block in
  let conflicting_block := if swap then this_block else other_block in
  let after := h (deref new_block) (deref conflicting_block) in
  raised r = None /\
  blocks r =
    RangeDict.assign (RangeDict.assign self new_block (fst after))
      conflicting_block (snd after).
Proof.
  intros Hsize Hset r swap new_block conflicting_block after.
  subst r after new_block conflicting_block swap.
  rewrite (@add_block_on_overlap _ self addr size irsb "handle" (Some h)
             _ _ Hsize Hset).
  simpl. destruct (negb _); destruct (h _ _); simpl; auto.
Qed.


(** Claim C4, as amended: a call with [size = 0] raises the [ValueError] for
    an empty block before the placement is tried, and the store is as it
    was. *)
Theorem empty_block_rejected self addr irsb mode (oh : option (handler T)) :
  add_block self addr 0 irsb mode oh =
    mkOutcome self (Some (ValueError_empty addr 0)) 0 [].
Proof. reflexivity. Qed.

(** Claim C5: a call that fails with the [ValueError] for an empty block,
    with [OverlappedBlocks] in mode 'raise', with the [ValueError] for an
    unknown mode or because there is no handler to call leaves the store as
    it was. *)
Theorem rejected_call_changes_nothing self addr size irsb mode
    (oh : option (handler T)) e :
  raised (add_block self addr size irsb mode oh) = Some e ->
  rejection mode e ->
  blocks (add_block self addr size irsb mode oh) = self.
Proof.
  intros Hr Hrej.
  destruct (Z.eq_dec size 0) as [->|Hsize]; [reflexivity|].
  destruct (BlockMapping.__setitem__ self addr (addr + size) irsb)
    as [[this_block other_block]|stored] eqn:Hset.
  - rewrite (@add_block_on_overlap _ self addr size irsb mode oh
               _ _ Hsize Hset) in *.
    destruct (String.eqb mode "handle").
    + destruct (negb _); destruct oh as [h|]; try reflexivity;
        destruct (h _ _); discriminate.
    + destruct (String.eqb mode "trim") eqn:Etrim.
      * cbv zeta in *.
        destruct (BlockMapping.__setitem__ (RangeDict.assign _ _ _) _ _ _)
          as [[t o]|stored]; [|discriminate].
        simpl in Hr. injection Hr as <-. simpl in Hrej. subst mode.
        discriminate.
      * destruct (String.eqb mode "raise"); reflexivity.
  - rewrite (@add_block_placed _ self addr size irsb mode oh _ Hsize Hset)
      in Hr.
    discriminate.
Qed.


(** Claim C7: a block from 10 to 20 and then a block from 15 to 25, both
    in mode 'trim' on an empty store: both calls return, the second after
    one retry, and the store holds exactly two records, the earlier one cut
    back to [10, 15) and the later one with its full range [15, 25). *)
Theorem trim_cuts_the_earlier_block (irsb1 irsb2 : T)
    (oh1 oh2 : option (handler T)) :
  let first := add_block [] 10 10 irsb1 "trim" oh1 in
  let second := add_block (blocks first) 15 10 irsb2 "trim" oh2 in
  raised first = None /\
  raised second = None /\
  placements second = 2%nat /\
  blocks second =
    [mkBlockItem 10 15 irsb1 false; mkBlockItem 15 25 irsb2 false].
Proof. repeat split. Qed.


(** Claim C9, as amended: a call in mode 'handle' without a handler fails
    only when the placement raises: then calling the missing handler is a
    [TypeError] and the store is as it was; when the placement returns, the
    call returns and the record is stored. *)
Theorem handle_without_handler self addr size irsb :
  size <> 0 ->
  let r := add_block self addr size irsb "handle" None in
  match BlockMapping.__setitem__ self addr (addr + size) irsb with
  | inl _ =>
      raised r = Some TypeError_not_callable /\ blocks r = self /\
      handled r = []
  | inr stored => raised r = None /\ blocks r = stored
  end.
Proof.
  intros Hsize r. subst r.
  destruct (BlockMapping.__setitem__ self addr (addr + size) irsb)
    as [[this_block other_block]|stored] eqn:Hset.
  - rewrite (@add_block_on_overlap _ self addr size irsb "handle" None
               _ _ Hsize Hset).
    simpl. destruct (negb _); simpl; auto.
  - rewrite (@add_block_placed _ self addr size irsb "handle" None
               _ Hsize Hset).
    simpl. auto.
Qed.

(** Claim C10, as amended: when [size > 0], every stored record has a range
    that is not empty and the range [addr, addr + size) is disjoint from
    the range of every stored record, the call returns after one placement
    and the record is stored between its neighbours, no range and no
    payload changed, whatever string [overlap_mode] is: the mode is looked
    at only after a placement has raised. *)
Theorem disjoint_call_ignores_mode self addr size irsb mode
    (oh : option (handler T)) :
  0 < size ->
  all_proper self ->
  Forall (fun b =>
            disjoint b (BlockMapping._make_item addr (addr + size) irsb)) self ->
  exists stored xs ys,
    add_block self addr size irsb mode oh = mkOutcome stored None 1 [] /\
    contents self = xs ++ ys /\
    contents stored = xs ++ (addr, addr + size, irsb) :: ys.
Proof.
  intros Hsize Hproper Hdis.
  assert (Hc : Forall (fun b => (start b <= addr -> end_ b <= addr) /\
                                (addr < start b -> addr + size <= start b))
                 self).
  { unfold all_proper in Hproper. rewrite Forall_forall in *.
    intros b Hb. specialize (Hproper b Hb). specialize (Hdis b Hb).
    unfold disjoint, covers in Hdis. simpl in Hdis. split; intros H.
    - destruct (Z_lt_ge_dec addr (end_ b)) as [Hlt|]; [|lia].
      exfalso. apply (Hdis addr). lia.
    - destruct (Z_lt_ge_dec (start b) (addr + size)) as [Hlt|]; [|lia].
      exfalso. apply (Hdis (start b)). lia. }
  destruct (@__setitem___clear _ self addr (addr + size) irsb Hc)
    as (stored & xs & ys & Hset & Hxs & Hys).
  exists stored, xs, ys. split; [|auto].
  apply add_block_placed; [lia | exact Hset].
Qed.

End Claims.

(* ------------------------------------------------------------------ *)
(** * The code on concrete inputs *)

Section Runs.
Import BasicBlocksPlugin Examples.

(** The two records [[10, 20)] stretched to 35 and [[30, 40)] share 32. *)
Lemma stretched_blocks_overlap :
  ~ pairwise_disjoint [set_end (item 10 20 1) 35; item 30 40 3].
Proof.
  intros H.
  apply (H 0%nat 1%nat _ _ (Nat.neq_succ_diag_r 0) eq_refl eq_refl 32).
  unfold covers. simpl. lia.
Qed.

(** Against claim C1: three calls that all return, the third in mode
    'handle' with a handler that stretches the stored record; the store ends
    with [[10, 35)] and [[30, 40)], which intersect. *)
Lemma handler_can_break_disjointness :
  ~ (forall (calls : list (call nat)) final log,
       run [] calls = Some (final, log) -> pairwise_disjoint final).
Proof.
  intros H. apply stretched_blocks_overlap.
  exact (H stretching_calls _ _ eq_refl).
Qed.

Lemma disjoint_while_handlers_behave_witness :
  handlers_behave [] behaving_calls /\
  run [] behaving_calls
    = Some ([item 10 12 1; item 15 25 2], [(item 12 17 4, item 10 15 1)]) /\
  pairwise_disjoint [item 10 12 1; item 15 25 2].
Proof.
  assert (Hb : handlers_behave [] behaving_calls).
  { simpl. repeat split; intros _; repeat constructor; simpl; lia. }
  split; [exact Hb|]. split; [reflexivity|].
  exact (@disjoint_while_handlers_behave nat behaving_calls _ _ Hb eq_refl).
Defined.

(** Against claim C2: the handler leaves the stored records [[10, 35)] and
    [[30, 40)] intersecting, and [add_block] returns all the same. *)
Lemma unrestored_overlap_goes_unnoticed :
  let r := add_block two_blocks 15 10 2%nat "handle"
             (Some stretching_handler) in
  raised r = None /\ ~ pairwise_disjoint (blocks r).
Proof.
  split; [reflexivity|]. exact stretched_blocks_overlap.
Qed.

Lemma handle_returns_unchecked_witness :
  let r := add_block one_block 15 10 2%nat "handle" (Some _ovarlap_handler) in
  raised r = None /\ blocks r = [item 10 15 1].
Proof.
  apply (@handle_returns_unchecked nat one_block 15 10 2%nat _ovarlap_handler
           (Stored 0 (item 10 20 1)) (Fresh (item 15 25 2))).
  - discriminate.
  - reflexivity.
Defined.



(** Against claim C4: a negative size is not turned away; the placement runs
    and the store, empty before, holds a record from 100 to 95. *)
Lemma negative_size_is_stored :
  let r := add_block (T := nat) [] 100 (-5) 7%nat "trim" None in
  raised r = None /\ blocks r = [item 100 95 7] /\ placements r = 1%nat.
Proof. repeat split. Qed.

Lemma rejected_call_changes_nothing_witness :
  let r := add_block one_block 15 10 2%nat "raise" None in
  raised r =
    Some (OverlappedBlocks (Stored 0 (item 10 20 1)) (Fresh (item 15 25 2))) /\
  blocks r = one_block.
Proof.
  split; [reflexivity|].
  apply (@rejected_call_changes_nothing nat one_block 15 10 2%nat "raise" None
           (OverlappedBlocks (Stored 0 (item 10 20 1)) (Fresh (item 15 25 2)))).
  - reflexivity.
  - reflexivity.
Defined.




(** Against claim C9: mode 'handle' and no handler, on a store the new block
    does not touch: the call returns and the block is stored. *)
Lemma missing_handler_is_not_noticed :
  let r := add_block one_block 30 10 3%nat "handle" None in
  raised r = None /\ blocks r = two_blocks.
Proof. repeat split. Qed.

Lemma handle_without_handler_witness :
  let r := add_block one_block 15 10 2%nat "handle" None in
  raised r = Some TypeError_not_callable /\ blocks r = one_block /\
  handled r = [].
Proof.
  apply (@handle_without_handler nat one_block 15 10 2%nat). discriminate.
Defined.

(** Against claim C10: calls whose range is disjoint from every stored
    range and that fail all the same.  An empty range is turned away
    whatever the store holds.  A record from 100 to 95, stored by a call
    that returned, and a record from 10 to 10 cover no address, yet a
    block laid over where they start makes the placement raise, and the
    unknown mode is then an error. *)
Lemma disjoint_call_can_fail :
  (let r := add_block one_block 50 0 2%nat "no such mode" None in
   Forall (fun b => disjoint b (BlockMapping._make_item 50 (50 + 0) 2%nat))
     one_block /\
   raised r = Some (ValueError_empty 50 0)) /\
  (let self := [item 100 95 7] in
   let r := add_block self 90 20 2%nat "no such mode" None in
   run [] [mkCall 100 (-5) 7%nat "trim" None] = Some (self, []) /\
   Forall (fun b => disjoint b (BlockMapping._make_item 90 (90 + 20) 2%nat))
     self /\
   raised r = Some (ValueError_unknown_mode "no such mode")) /\
  (let r := add_block emptied_block 5 10 2%nat "no such mode" None in
   Forall (fun b => disjoint b (BlockMapping._make_item 5 (5 + 10) 2%nat))
     emptied_block /\
   raised r = Some (ValueError_unknown_mode "no such mode")).
Proof.
  repeat split; repeat constructor; intros x; unfold covers; simpl; lia.
Qed.

Lemma disjoint_call_ignores_mode_witness :
  (exists stored xs ys,
     add_block one_block 30 10 3%nat "no such mode" None
       = mkOutcome stored None 1 [] /\
     contents one_block = xs ++ ys /\
     contents stored = xs ++ (30, 30 + 10, 3%nat) :: ys) /\
  add_block one_block 30 10 3%nat "no such mode" None
    = mkOutcome two_blocks None 1 [].
Proof.
  split; [|reflexivity].
  apply (@disjoint_call_ignores_mode nat one_block 30 10 3%nat
           "no such mode" None).
  - lia.
  - repeat constructor.
  - repeat constructor. intros x. unfold covers. simpl. lia.
Defined.

End Runs.

(* ------------------------------------------------------------------ *)
(** * More of the block store *)

Section StoredRecord.
Context {T : Type}.
Implicit Types (l ls rs : RangeDict.t T) (new this L R : BlockItem T).

(** The hooks of [BlockMapping] never change the record being inserted. *)
Lemma place_right_keeps_new new rs : forall idx new' rs',
  RangeDict.place_right BlockMapping._trim_left new idx rs = inr (new', rs') ->
  new' = new.
Proof.
  induction rs as [|R post IH]; simpl; intros idx new' rs' H.
  - injection H as <- _. reflexivity.
  - destruct (BlockMapping._trim_left R new) as [x y|R' new0] eqn:E;
      [discriminate|].
    apply _trim_left_returns in E as (-> & _).
    destruct (RangeDict.survives R R').
    + eapply IH; eauto.
    + injection H as <- _. reflexivity.
Qed.

(** When [self._blocks[s:e] = v] returns, the record made for it is in
    the sequence as it was made. *)
Lemma __setitem___stores l s e v l' :
  BlockMapping.__setitem__ l s e v = inr l' ->
  exists ls' rs', l' = ls' ++ BlockMapping._make_item s e v :: rs'.
Proof.
  unfold BlockMapping.__setitem__, RangeDict.__setitem__, RangeDict.place.
  set (new := BlockMapping._make_item s e v).
  destruct (RangeDict.split_at (start new) l) as [ls rs].
  destruct (rev ls) as [|L rpre].
  - destruct (RangeDict.place_right _ new _ rs) as [[a b]|[n2 rs']] eqn:Hr;
      [discriminate|].
    intros [= <-]. apply place_right_keeps_new in Hr as ->.
    exists [], rs'. reflexivity.
  - destruct (BlockMapping._trim_right L new) as [x y|L' new'] eqn:E;
      [discriminate|].
    apply _trim_right_returns in E as (-> & _).
    destruct (RangeDict.place_right _ new _ rs) as [[a b]|[n2 rs']] eqn:Hr;
      [discriminate|].
    intros [= <-]. apply place_right_keeps_new in Hr as ->.
    eexists _, rs'. reflexivity.
Qed.

End StoredRecord.

Section BlockStoreProperties.
Context {T : Type}.
Implicit Types (self : RangeDict.t T) (irsb : T) (mode : string).

Import BasicBlocksPlugin.

(** X1.  A call of [add_block] that returns without having called a
    handler has stored the new record: it is in the store from [addr] to
    [addr + size] with the payload given and without the second chance,
    whatever was trimmed to make room for it. *)
Theorem returned_call_stores_the_block self addr size irsb mode
    (oh : option (handler T)) :
  let r := add_block self addr size irsb mode oh in
  raised r = None -> handled r = [] ->
  size <> 0 /\
  exists ls' rs',
    blocks r = ls' ++ mkBlockItem addr (addr + size) irsb false :: rs'.
Proof.
  intros r Hr Hh. subst r.
  destruct (Z.eq_dec size 0) as [->|Hsize]; [discriminate|].
  split; [exact Hsize|].
  destruct (BlockMapping.__setitem__ self addr (addr + size) irsb)
    as [[this_block other_block]|stored] eqn:Hset.
  - rewrite (@add_block_on_overlap _ self addr size irsb mode oh
               _ _ Hsize Hset) in *.
    destruct (String.eqb mode "handle").
    + destruct (negb _); destruct oh as [h|]; try discriminate;
        destruct (h _ _); discriminate.
    + destruct (String.eqb mode "trim").
      * cbv zeta in *.
        destruct (BlockMapping.__setitem__ (RangeDict.assign _ _ _) _ _ _)
          as [[t o]|stored] eqn:Hset2; [discriminate|].
        simpl. exact (__setitem___stores _ _ _ _ Hset2).
      * destruct (String.eqb mode "raise"); discriminate.
  - rewrite (@add_block_placed _ self addr size irsb mode oh _ Hsize Hset).
    simpl. exact (__setitem___stores _ _ _ _ Hset).
Qed.

(** X2.  What [test_trim] checks, for any store: in mode 'trim', a stored
    record without a second chance that reaches over [addr] and ends
    within the new block, with nothing in the way on the right, is cut
    back to end at [addr] (and leaves the store when it started there),
    and the new record goes in behind it with its full range; the
    placement has run twice. *)
Theorem trim_cuts_left_neighbour self ls L rs addr size irsb
    (oh : option (handler T)) :
  RangeDict.split_at addr self = (ls ++ [L], rs) ->
  second_chance L = false ->
  addr < end_ L <= addr + size ->
  size <> 0 ->
  match rs with [] => True | R :: _ => addr + size <= start R end ->
  add_block self addr size irsb "trim" oh =
    mkOutcome
      (ls ++ (if start L <? addr then [set_end L addr] else [])
          ++ mkBlockItem addr (addr + size) irsb false
          :: match rs with
             | [] => []
             | R :: post => set_second_chance R false :: post
             end)
      None 2 [].
Proof.
  intros Hs HfL [HovL _] Hsize Hclear.
  set (new_block := BlockMapping._make_item addr (addr + size) irsb).
  pose proof (split_at_app _ _ Hs) as Hself.
  rewrite <- app_assoc in Hself. simpl in Hself.
  assert (Hfirst : BlockMapping.__setitem__ self addr (addr + size) irsb
                   = inl (Stored (List.length ls) L, Fresh new_block)).
  { unfold BlockMapping.__setitem__, RangeDict.__setitem__, RangeDict.place.
    fold new_block. change (start new_block) with addr.
    rewrite Hs, rev_app_distr. simpl.
    rewrite (_trim_right_refuses L new_block HfL HovL), length_rev.
    reflexivity. }
  rewrite (@add_block_on_overlap _ self addr size irsb "trim" oh
             _ _ Hsize Hfirst).
  simpl. rewrite Hself, update_middle.
  assert (Hsecond :
    BlockMapping.__setitem__ (ls ++ set_second_chance L true :: rs)
      addr (addr + size) irsb
    = inr (ls ++ (if start L <? addr then [set_end L addr] else [])
              ++ new_block
              :: match rs with
                 | [] => []
                 | R :: post => set_second_chance R false :: post
                 end)).
  { unfold BlockMapping.__setitem__, RangeDict.__setitem__, RangeDict.place.
    fold new_block. change (start new_block) with addr.
    rewrite Hself in Hs.
    rewrite (@split_at_same_start _ addr ls L (set_second_chance L true)
               rs Hs eq_refl).
    rewrite rev_app_distr. simpl.
    unfold BlockMapping._trim_right, RangeDict._trim_right. simpl.
    rewrite andb_false_r.
    assert (E : (addr <? end_ L) = true) by (apply Z.ltb_lt; exact HovL).
    rewrite E.
    rewrite (place_right_clear new_block rs _ Hclear).
    unfold RangeDict.survives. simpl.
    assert (E' : (addr =? end_ L) = false) by (apply Z.eqb_neq; lia).
    rewrite E', andb_false_r, orb_false_r, rev_involutive.
    destruct L as [sL eL vL fL]. simpl in *. subst fL.
    unfold set_end. simpl.
    destruct (sL <? addr); rewrite <- app_assoc; reflexivity. }
  rewrite Hsecond. reflexivity.
Qed.

(** X3.  [self[a:b] = v] is [add_block(a, b - a, v)] in the default mode:
    with [a = b] it raises the [ValueError] for an empty block and the
    store is as it was; when it returns, [a] and [b] differ and the store
    holds a record from [a] to [b] with the value [v]. *)
Theorem slice_assignment_stores_the_slice self a b (v : T) r :
  __setitem__ self (Slice (Some a) (Some b) None) v = inr r ->
  (a = b -> raised r = Some (ValueError_empty a 0) /\ blocks r = self) /\
  (raised r = None ->
   a <> b /\
   exists ls' rs', blocks r = ls' ++ mkBlockItem a b v false :: rs').
Proof.
  simpl. intros [= <-]. split.
  - intros ->. rewrite Z.sub_diag. split; reflexivity.
  - intros Hr.
    assert (Hh : handled (add_block self a (b - a) v "trim" None) = []).
    { destruct (handled _) eqn:E; [reflexivity|].
      assert (Hne : handled (add_block self a (b - a) v "trim" None) <> [])
        by (rewrite E; discriminate).
      apply handled_only_in_handle in Hne. discriminate. }
    destruct (@returned_call_stores_the_block self a (b - a) v "trim" None
                Hr Hh) as (Hsize & ls' & rs' & Hb).
    split; [lia|]. exists ls', rs'. rewrite Hb.
    replace (a + (b - a)) with b by lia. reflexivity.
Qed.

(** X4.  In mode 'raise', when the placement raises, [add_block] raises
    the same [OverlappedBlocks]: it names a record of the store and the
    record that was being inserted, the placement has run once, no
    handler is called and the store is as it was. *)
Theorem raise_mode_reports_both self addr size irsb
    (oh : option (handler T)) this_block other_block :
  size <> 0 ->
  BlockMapping.__setitem__ self addr (addr + size) irsb
    = inl (this_block, other_block) ->
  let r := add_block self addr size irsb "raise" oh in
  raised r = Some (OverlappedBlocks this_block other_block) /\
  blocks r = self /\ placements r = 1%nat /\ handled r = [] /\
  other_block = Fresh (mkBlockItem addr (addr + size) irsb false) /\
  exists i b, this_block = Stored i b /\ nth_error self i = Some b.
Proof.
  intros Hsize Hset r. subst r.
  rewrite (@add_block_on_overlap _ self addr size irsb "raise" oh
             _ _ Hsize Hset).
  destruct (__setitem___raises _ _ _ _ Hset) as (Ho & i & b & Ht & Hn & _).
  simpl. repeat split; auto. exists i, b. auto.
Qed.

(** X5.  The order of the calls matters in mode 'trim': [[10, 20)] and
    then [[15, 25)] leaves [[10, 15)] and [[15, 25)]; [[15, 25)] and then
    [[10, 20)] leaves [[10, 20)] and [[20, 25)].  The later block keeps its
    range either way. *)
Theorem trim_depends_on_order (irsb1 irsb2 : T) :
  run [] [ mkCall 10 10 irsb1 "trim" None; mkCall 15 10 irsb2 "trim" None ]
    = Some ([mkBlockItem 10 15 irsb1 false; mkBlockItem 15 25 irsb2 false],
            []) /\
  run [] [ mkCall 15 10 irsb2 "trim" None; mkCall 10 10 irsb1 "trim" None ]
    = Some ([mkBlockItem 10 20 irsb1 false; mkBlockItem 20 25 irsb2 false],
            []).
Proof. split; reflexivity. Qed.

(** X6.  A call in a mode other than 'handle' that returns on a store
    whose records are in order, none reaching into the next, leaves such
    a store, and so one whose ranges are pairwise disjoint. *)
Theorem unhandled_call_keeps_disjointness self addr size irsb mode
    (oh : option (handler T)) :
  let r := add_block self addr size irsb mode oh in
  well_formed self ->
  mode <> "handle"%string ->
  raised r = None ->
  well_formed (blocks r) /\ pairwise_disjoint (blocks r).
Proof.
  intros r Hw Hm Hr.
  assert (Hwf : well_formed (blocks r)).
  { apply add_block_well_formed; auto.
    intros Hh. apply handled_only_in_handle in Hh. contradiction. }
  split; [exact Hwf | apply well_formed_pairwise_disjoint; exact Hwf].
Qed.

End BlockStoreProperties.

(* ------------------------------------------------------------------ *)
(** * The knowledge base and its plugins *)

Section KnowledgeBaseProperties.
Context {Project Obj Plugin Exc : Type}.

Import KnowledgeBase.

Implicit Types (self : t Project Obj Plugin) (name other : string).
Implicit Types (d : dict (plugin_cls Project Obj Plugin Exc)) (p : Plugin).

Lemma dict_set_same (V : Type) (m : dict V) k v : dict_set m k v k = Some v.
Proof. unfold dict_set. rewrite String.eqb_refl. reflexivity. Qed.

Lemma dict_set_other (V : Type) (m : dict V) k v k' :
  k' <> k -> dict_set m k v k' = m k'.
Proof.
  intros H. unfold dict_set. apply String.eqb_neq in H. rewrite H.
  reflexivity.
Qed.

Lemma dict_del_same (V : Type) (m : dict V) k : dict_del m k k = None.
Proof. unfold dict_del. rewrite String.eqb_refl. reflexivity. Qed.

Lemma dict_del_other (V : Type) (m : dict V) k k' :
  k' <> k -> dict_del m k k' = m k'.
Proof.
  intros H. unfold dict_del. apply String.eqb_neq in H. rewrite H.
  reflexivity.
Qed.

Lemma released_is_absent self name :
  _plugins (release_plugin self name) name = None.
Proof.
  unfold release_plugin, dict_in.
  destruct (_plugins self name) eqn:E; simpl.
  - apply dict_del_same.
  - exact E.
Qed.

(** Property X7: a plugin registered under a name is what [get_plugin]
    returns for that name, whatever the defaults are; no plugin class is
    called and the knowledge base is left as it is. *)
Theorem registered_plugin_is_returned d self name p :
  get_plugin d (register_plugin self name p) name
    = (register_plugin self name p, inr p) /\
  has_plugin (register_plugin self name p) name = true.
Proof.
  unfold get_plugin, has_plugin, dict_in. simpl.
  rewrite dict_set_same. auto.
Qed.

(** Property X8: a default plugin is made on first use and kept: when
    nothing is registered under [name] and the default class returns [p],
    [get_plugin] calls the class once, registers [p] and returns it;
    [has_plugin] was [False] before and is [True] after; every later
    [get_plugin] returns [p] again without calling any class. *)
Theorem default_plugin_is_made_once d self name
    (cls : plugin_cls Project Obj Plugin Exc) p :
  _plugins self name = None ->
  d name = Some cls ->
  cls self = inr p ->
  let after := fst (get_plugin d self name) in
  snd (get_plugin d self name) = inr p /\
  has_plugin self name = false /\
  has_plugin after name = true /\
  constructed after = S (constructed self) /\
  forall d', get_plugin d' after name = (after, inr p).
Proof.
  intros Hnone Hd Hcls after. subst after.
  assert (Hget : get_plugin d self name
                 = (register_plugin (calling self) name p, inr p)).
  { unfold get_plugin. rewrite Hnone, Hd, Hcls. reflexivity. }
  rewrite Hget. unfold has_plugin, dict_in. cbn [fst snd].
  rewrite Hnone. unfold register_plugin at 1. cbn [_plugins].
  rewrite dict_set_same. repeat split; auto.
  intros d'. unfold get_plugin at 1.
  unfold register_plugin at 1. cbn [_plugins].
  rewrite dict_set_same. reflexivity.
Qed.

(** Property X9: [get_plugin] raises [KnowledgeBaseNoPlugin] exactly when
    the name is neither registered nor a default, and then the knowledge
    base is as it was. *)
Theorem unknown_plugin_raises d self name :
  (snd (get_plugin d self name) = inl (KnowledgeBaseNoPlugin Exc name) <->
   _plugins self name = None /\ d name = None) /\
  (snd (get_plugin d self name) = inl (KnowledgeBaseNoPlugin Exc name) ->
   fst (get_plugin d self name) = self).
Proof.
  unfold get_plugin.
  destruct (_plugins self name) as [q|] eqn:Hp; simpl.
  { split; [split; [discriminate | intros [H _]; discriminate] | discriminate]. }
  destruct (d name) as [cls|] eqn:Hd; simpl.
  - destruct (cls self); simpl;
      (split; [split; [discriminate | intros [_ H]; discriminate]
              | discriminate]).
  - split; [split; auto | auto].
Qed.

(** Property X10: [release_plugin] forgets the plugin of that name and no
    other, and does nothing when no plugin of that name is registered. *)
Theorem release_forgets_only_that_plugin self name :
  has_plugin (release_plugin self name) name = false /\
  (forall other, other <> name ->
     _plugins (release_plugin self name) other = _plugins self other) /\
  (has_plugin self name = false -> release_plugin self name = self).
Proof.
  split; [|split].
  - unfold has_plugin, dict_in. rewrite released_is_absent. reflexivity.
  - intros other Hne. unfold release_plugin.
    destruct (dict_in name (_plugins self)); simpl; [|reflexivity].
    apply dict_del_other. exact Hne.
  - unfold has_plugin, release_plugin. intros ->. reflexivity.
Qed.

(** Property X11: a released plugin is not reused: after
    [release_plugin(name)], [get_plugin(name)] calls the default class
    again and registers what it returns. *)
Theorem released_plugin_is_made_again d self name
    (cls : plugin_cls Project Obj Plugin Exc) p :
  d name = Some cls ->
  cls (release_plugin self name) = inr p ->
  get_plugin d (release_plugin self name) name
    = (register_plugin (calling (release_plugin self name)) name p, inr p) /\
  constructed (fst (get_plugin d (release_plugin self name) name))
    = S (constructed self).
Proof.
  intros Hd Hcls. unfold get_plugin.
  rewrite released_is_absent, Hd, Hcls. simpl. split; [reflexivity|].
  unfold release_plugin. destruct (dict_in name (_plugins self)); reflexivity.
Qed.

(** Property X12: [register_default] makes [plugin_cls] the default of
    [name] and leaves the other defaults alone; it warns exactly when the
    name had a default already; a knowledge base that holds a plugin under
    [name] keeps returning that plugin. *)
Theorem register_default_replaces d name
    (cls : plugin_cls Project Obj Plugin Exc) :
  let d' := fst (register_default d name cls) in
  let warned := snd (register_default d name cls) in
  d' name = Some cls /\
  (forall other, other <> name -> d' other = d other) /\
  (warned = true <-> exists old, d name = Some old) /\
  (forall self p, _plugins self name = Some p ->
     get_plugin d' self name = (self, inr p)).
Proof.
  simpl. repeat split.
  - apply dict_set_same.
  - intros other Hne. apply dict_set_other. exact Hne.
  - unfold dict_in. destruct (d name) as [old|]; [eauto | discriminate].
  - unfold dict_in. intros [old ->]. reflexivity.
  - intros self p Hp. unfold get_plugin. rewrite Hp. reflexivity.
Qed.

(** Property X13: [__setstate__] after [__getstate__] gives a knowledge
    base with the same project, object and plugins, so [get_plugin] returns
    each registered plugin as before; the two sets of indirect jumps are
    not part of the state and are not set on the new object. *)
Theorem pickling_keeps_the_plugins self :
  let copy := __setstate__ (__getstate__ self) in
  _project copy = _project self /\
  obj copy = obj self /\
  _plugins copy = _plugins self /\
  unresolved_indirect_jumps copy = None /\
  resolved_indirect_jumps copy = None /\
  (forall d name p,
     _plugins self name = Some p ->
     get_plugin d self name = (self, inr p) /\
     get_plugin d copy name = (copy, inr p)).
Proof.
  simpl. do 5 (split; [reflexivity|]).
  intros d name p Hp. split.
  - unfold get_plugin. rewrite Hp. reflexivity.
  - unfold get_plugin. simpl. rewrite Hp. reflexivity.
Qed.

(** Property X14: [get_plugin] never drops or replaces a registered
    plugin: whatever name is asked for and whatever comes of it, a plugin
    that was registered is registered afterwards. *)
Theorem get_plugin_keeps_registered d self name other p :
  _plugins self other = Some p ->
  _plugins (fst (get_plugin d self name)) other = Some p.
Proof.
  intros Hp. unfold get_plugin.
  destruct (_plugins self name) as [q|] eqn:Hn; simpl; [exact Hp|].
  destruct (d name) as [cls|]; simpl; [|exact Hp].
  destruct (cls self); simpl; [exact Hp|].
  rewrite dict_set_other; [exact Hp|].
  intros ->. congruence.
Qed.

End KnowledgeBaseProperties.

(* ------------------------------------------------------------------ *)
(** * More runs on concrete inputs *)

Section MoreRuns.
Import BasicBlocksPlugin Examples.

Lemma returned_call_stores_the_block_witness :
  let r := add_block one_block 15 10 2%nat "trim" None in
  10 <> 0 /\
  exists ls' rs',
    blocks r = ls' ++ mkBlockItem 15 (15 + 10) 2%nat false :: rs'.
Proof.
  apply (@returned_call_stores_the_block nat one_block 15 10 2%nat "trim"
           None); reflexivity.
Defined.

Lemma trim_cuts_left_neighbour_witness :
  add_block two_blocks 25 5 2%nat "trim" None
  = mkOutcome [item 10 20 1; item 25 30 2; item 30 40 3] None 1 [] /\
  add_block two_blocks 15 10 2%nat "trim" None
  = mkOutcome [item 10 15 1; item 15 25 2; item 30 40 3] None 2 [].
Proof.
  split; [reflexivity|].
  apply (@trim_cuts_left_neighbour nat two_blocks [] (item 10 20 1)
           [item 30 40 3] 15 10 2%nat None).
  - reflexivity.
  - reflexivity.
  - simpl. lia.
  - discriminate.
  - simpl. lia.
Defined.

Lemma slice_assignment_stores_the_slice_witness :
  let r := add_block one_block 15 (25 - 15) 2%nat "trim" None in
  (15 = 25 -> raised r = Some (ValueError_empty 15 0) /\ blocks r = one_block)
  /\
  (raised r = None ->
   15 <> 25 /\
   exists ls' rs', blocks r = ls' ++ mkBlockItem 15 25 2%nat false :: rs').
Proof.
  apply (@slice_assignment_stores_the_slice nat one_block 15 25 2%nat).
  reflexivity.
Defined.

Lemma raise_mode_reports_both_witness :
  let r := add_block one_block 15 10 2%nat "raise" None in
  raised r = Some (OverlappedBlocks (Stored 0 (item 10 20 1))
                                    (Fresh (item 15 25 2))) /\
  blocks r = one_block /\ placements r = 1%nat /\ handled r = [] /\
  Fresh (item 15 25 2) = Fresh (mkBlockItem 15 (15 + 10) 2%nat false) /\
  exists i b,
    Stored 0 (item 10 20 1) = Stored i b /\ nth_error one_block i = Some b.
Proof.
  apply (@raise_mode_reports_both nat one_block 15 10 2%nat None
           (Stored 0 (item 10 20 1)) (Fresh (item 15 25 2))).
  - discriminate.
  - reflexivity.
Defined.

Lemma unhandled_call_keeps_disjointness_witness :
  let r := add_block one_block 15 10 2%nat "trim" None in
  well_formed (blocks r) /\ pairwise_disjoint (blocks r).
Proof.
  apply (@unhandled_call_keeps_disjointness nat one_block 15 10 2%nat "trim"
           None).
  - repeat constructor.
  - discriminate.
  - reflexivity.
Defined.

Lemma default_plugin_is_made_once_witness :
  let after :=
    fst (KnowledgeBase.get_plugin KBExamples.defaults KBExamples.fresh
           "basic_blocks") in
  snd (KnowledgeBase.get_plugin KBExamples.defaults KBExamples.fresh
         "basic_blocks") = inr 0%nat /\
  KnowledgeBase.has_plugin KBExamples.fresh "basic_blocks" = false /\
  KnowledgeBase.has_plugin after "basic_blocks" = true /\
  KnowledgeBase.constructed after
    = S (KnowledgeBase.constructed KBExamples.fresh) /\
  forall d' : KnowledgeBase.dict KBExamples.cls,
    KnowledgeBase.get_plugin d' after "basic_blocks" = (after, inr 0%nat).
Proof.
  apply (@default_plugin_is_made_once unit unit nat string
           KBExamples.defaults KBExamples.fresh "basic_blocks"
           KBExamples.counting 0%nat); reflexivity.
Defined.

Lemma released_plugin_is_made_again_witness :
  let used :=
    fst (KnowledgeBase.get_plugin KBExamples.defaults KBExamples.fresh
           "basic_blocks") in
  let released := KnowledgeBase.release_plugin used "basic_blocks" in
  KnowledgeBase.get_plugin KBExamples.defaults released "basic_blocks"
    = (KnowledgeBase.register_plugin (KnowledgeBase.calling released)
         "basic_blocks" 1%nat, inr 1%nat) /\
  KnowledgeBase.constructed
    (fst (KnowledgeBase.get_plugin KBExamples.defaults released
            "basic_blocks"))
    = S (KnowledgeBase.constructed used).
Proof.
  apply (@released_plugin_is_made_again unit unit nat string
           KBExamples.defaults _ "basic_blocks" KBExamples.counting 1%nat);
    reflexivity.
Defined.

Lemma get_plugin_keeps_registered_witness :
  KnowledgeBase._plugins
    (fst (KnowledgeBase.get_plugin KBExamples.defaults
            KBExamples.with_functions "labels")) "functions"%string
  = Some 42%nat.
Proof.
  apply (@get_plugin_keeps_registered unit unit nat string
           KBExamples.defaults KBExamples.with_functions "labels"
           "functions" 42%nat).
  reflexivity.
Defined.

End MoreRuns.
